(** * elasticsearch_s3_repo: the reconciler of library/elasticsearch_s3_repo.py

    A shallow embedding of the Ansible module that registers or removes an
    S3 snapshot repository in ElasticSearch, and the properties of its
    [main] routine.

    - Python values that reach [str(...).lower()] are the scalars of
      [pyval]; strings are byte strings, as [str] makes them in Python 2,
      and [lower] folds the letters A to Z. Floats are left out.
    - [module.params] is the record [params]: the fields without a default
      are a string or [None]; [protocol] and [state] range over their
      [choices], which AnsibleModule enforces before [main] goes on.
    - Dictionaries read by key are [gmap string _]. The dictionary the
      comparison loop iterates over is an association list in the order
      [create_repo_data] fills it; [needs_update_Permutation] shows that
      the order of iteration does not change the outcome.
    - A JSON body is an object of repository definitions, each with an
      optional object of scalar settings: as far as [main] looks into it.
    - HTTP is a state-passing monad over an arbitrary server, given by its
      transition function [handle]: every call of [requests.get/post/delete]
      is appended to the list of calls, whatever its outcome. A computation
      ends with a value, with a raised exception, or with the [SystemExit]
      of [exit_json] and [fail_json]; an exception that reaches the end of
      [main] is the traceback the module dies with. *)

From stdpp Require Import gmap strings list fin_maps pretty.
From Stdlib Require Import ZArith Ascii String.

Open Scope Z_scope.
Open Scope string_scope.

(** ** Python values and [str(v).lower()] *)

Inductive pyval : Type :=
  | PNone
  | PBool (b : bool)
  | PInt (n : Z)
  | PStr (s : string).

(** [str(v)] *)
Definition py_str (v : pyval) : string :=
  match v with
  | PNone => "None"
  | PBool true => "True"
  | PBool false => "False"
  | PInt n => pretty n
  | PStr s => s
  end.

Definition lower_ascii (c : ascii) : ascii :=
  let n := N_of_ascii c in
  if ((65 <=? n) && (n <=? 90))%N then ascii_of_N (n + 32) else c.

(** [s.lower()] *)
Fixpoint lower (s : string) : string :=
  match s with
  | EmptyString => EmptyString
  | String c r => String (lower_ascii c) (lower r)
  end.

(** [not v] for a parameter that is a string or [None] *)
Definition py_not (v : option string) : bool :=
  match v with
  | None => true
  | Some s => if decide (s = "") then true else false
  end.

Definition opt_val (v : option string) : pyval :=
  match v with
  | None => PNone
  | Some s => PStr s
  end.

(** [', '.join(l)] *)
Fixpoint join (sep : string) (l : list string) : string :=
  match l with
  | [] => ""
  | [x] => x
  | x :: r => x ++ sep ++ join sep r
  end.

(** ** module.params *)

Inductive protocol_t : Type := http | https.
Inductive state_t : Type := present | absent.

#[global] Instance state_t_eq_dec : EqDecision state_t.
Proof. solve_decision. Defined.

Definition protocol_str (p : protocol_t) : string :=
  match p with http => "http" | https => "https" end.

Record params : Type := Params {
  host : string;
  port : Z;
  bucket : option string;
  endpoint : option string;
  region : string;
  access_key : option string;
  secret_key : option string;
  max_retries : Z;
  protocol : protocol_t;
  state : state_t;
  repo_name : string;
  path_style_access : bool;
  compress : bool
}.

(** ["%s://%s:%d/_snapshot/%s" % (protocol, host, port, repo_name)] *)
Definition get_repo_url (module : params) : string :=
  protocol_str (protocol module) ++ "://" ++ host module ++ ":"
    ++ pretty (port module) ++ "/_snapshot/" ++ repo_name module.

(** ** create_repo_data *)

Record repo_data : Type := RepoData {
  rd_type : string;
  rd_settings : list (string * pyval)
}.

Definition create_repo_data (module : params) : repo_data :=
  {| rd_type := "s3";
     rd_settings :=
       [ ("bucket", opt_val (bucket module));
         ("endpoint", opt_val (endpoint module));
         ("region", PStr (region module));
         ("access_key", opt_val (access_key module));
         ("secret_key", opt_val (secret_key module));
         ("max_retries", PInt (max_retries module));
         ("path_style_access", PBool (path_style_access module));
         ("compress", PBool (compress module)) ] |}.

(** ** The comparison loop of [main]

    [for k in ms: if k in cs and str(cs[k]).lower() != str(ms[k]).lower():
       process_repo = True; break] *)

Definition differs (c m : pyval) : bool :=
  if decide (lower (py_str c) = lower (py_str m)) then false else true.

(** the test of the loop body on one item of [ms] *)
Definition mismatch (cs : gmap string pyval) (item : string * pyval) : bool :=
  match cs !! item.1 with
  | Some c => differs c item.2
  | None => false
  end.

(** The loop, with the keys the body ran on: [process_repo] and the keys
    visited before the loop ended or broke. *)
Fixpoint scan (cs : gmap string pyval) (ms : list (string * pyval))
  : bool * list string :=
  match ms with
  | [] => (false, [])
  | item :: rest =>
      if mismatch cs item then (true, [item.1])
      else let '(b, seen) := scan cs rest in (b, item.1 :: seen)
  end.

Definition needs_update (cs : gmap string pyval) (ms : list (string * pyval)) : bool :=
  (scan cs ms).1.

Definition visited (cs : gmap string pyval) (ms : list (string * pyval)) : list string :=
  (scan cs ms).2.

(** ** The HTTP interface: requests, replies, exceptions

    A JSON document of the snapshot API is an object whose members are
    repository definitions; [main] looks no deeper than
    [data[repo_name]['settings'][k]], and the settings are scalars. *)

Record repo_def : Type := RepoDef {
  def_type : string;
  def_settings : option (gmap string pyval)
}.

Record response : Type := Response {
  status_code : Z;
  body : option (gmap string repo_def)     (* [None]: the body is not JSON *)
}.

Inductive request : Type :=
  | GET (url : string)
  | POST (url : string) (data : repo_data)
  | DELETE (url : string).

(** what a call of [requests.get/post/delete] meets *)
Inductive reply : Type :=
  | Unreachable                  (* DNS, connection refused, timeout *)
  | Answered (resp : response).

Inductive exn : Type :=
  | ConnectionError              (* requests.exceptions.RequestException *)
  | HTTPError (resp : response)  (* its subclass raised by raise_for_status *)
  | ValueError                   (* resp.json() on a body that is not JSON *)
  | KeyError (key : string)
  | TypeError.

(** [except requests.exceptions.RequestException] *)
Definition is_RequestException (e : exn) : bool :=
  match e with
  | ConnectionError | HTTPError _ => true
  | _ => false
  end.

Definition is_mutating (r : request) : bool :=
  match r with
  | GET _ => false
  | POST _ _ | DELETE _ => true
  end.

(** ** What the module hands back to Ansible *)

Inductive exit_t : Type :=
  | exit_json (changed : bool) (msg : option string)
              (repo_data : option (gmap string repo_def))
  | fail_json (msg : string) (reason : option exn).

(** A computation ends with a value, a raised exception, or the
    [SystemExit] of [exit_json]/[fail_json]. *)
Inductive res (A : Type) : Type :=
  | Val (a : A)
  | Exc (e : exn)
  | Exit (x : exit_t).
Arguments Val {A} a.
Arguments Exc {A} e.
Arguments Exit {A} x.

Record world (server : Type) : Type := World {
  remote : server;
  calls : list request
}.
Arguments World {server} remote calls.
Arguments remote {server} w.
Arguments calls {server} w.

(** the result of [check_repo_exists] *)
Record check_result : Type := CheckResult {
  found : bool;
  error : bool;
  data : option (gmap string repo_def)
}.

Definition set_error (b : bool) (out : check_result) : check_result :=
  {| found := found out; error := b; data := data out |}.

Definition mutating_calls (l : list request) : list request :=
  filter (λ r, is_mutating r = true) l.

Section Reconciler.

Context {server : Type}.
Variable handle : server → request → server * reply.

Definition M (A : Type) : Type := world server → res A * world server.

Definition ret {A} (a : A) : M A := λ w, (Val a, w).

Definition bind {A B} (m : M A) (k : A → M B) : M B :=
  λ w, match m w with
       | (Val a, w') => k a w'
       | (Exc e, w') => (Exc e, w')
       | (Exit x, w') => (Exit x, w')
       end.

Definition raise {A} (e : exn) : M A := λ w, (Exc e, w).

Definition sys_exit {A} (x : exit_t) : M A := λ w, (Exit x, w).

(** [try: m  except requests.exceptions.RequestException, e: h e] *)
Definition try_except {A} (m : M A) (h : exn → M A) : M A :=
  λ w, match m w with
       | (Exc e, w') => if is_RequestException e then h e w' else (Exc e, w')
       | r => r
       end.

Notation "'let*' x ':=' m 'in' k" := (bind m (λ x, k))
  (at level 10, x name, m at level 100, k at level 200).
Notation "m '>>' k" := (bind m (λ _, k))
  (at level 100, k at level 200, right associativity).

(** one call into the [requests] library *)
Definition requests_call (r : request) : M response :=
  λ w, let '(s, rep) := handle (remote w) r in
       let w' := World s (calls w ++ [r]) in
       match rep with
       | Unreachable => (Exc ConnectionError, w')
       | Answered resp => (Val resp, w')
       end.

Definition raise_for_status (resp : response) : M unit :=
  if decide (400 ≤ status_code resp < 600) then raise (HTTPError resp)
  else ret tt.

Definition resp_json (resp : response) : M (gmap string repo_def) :=
  match body resp with
  | Some j => ret j
  | None => raise ValueError
  end.

Definition check_repo_exists (module : params) : M check_result :=
  let repo_url := get_repo_url module in
  let* resp := requests_call (GET repo_url) in
  if decide (status_code resp = 200) then
    let* j := resp_json resp in
    ret {| found := true; error := false; data := Some j |}
  else if decide (status_code resp ∉ [200; 404]) then
    raise_for_status resp >>
    ret {| found := false; error := true; data := None |}
  else ret {| found := false; error := false; data := None |}.

Definition create_repo (module : params) : M response :=
  let repo_data := create_repo_data module in
  let repo_url := get_repo_url module in
  let* resp := requests_call (POST repo_url repo_data) in
  raise_for_status resp >>
  ret resp.

Definition delete_repo (module : params) : M response :=
  let repo_url := get_repo_url module in
  let* resp := requests_call (DELETE repo_url) in
  raise_for_status resp >>
  ret resp.

(** *** main *)

(** the list [msg] built under [if state == 'present'] *)
Definition missing (p : params) : list string :=
  (if py_not (bucket p) then ["bucket"] else [])
  ++ (if py_not (endpoint p) then ["endpoint"] else [])
  ++ (if py_not (access_key p) then ["access_key"] else [])
  ++ (if py_not (secret_key p) then ["secret_key"] else []).

Definition validation_failure (msg : list string) : exit_t :=
  fail_json ("required if state=present but not defined: " ++ join ", " msg) None.

Definition main_validate (module : params) : M unit :=
  match state module with
  | present =>
      match missing module with
      | [] => ret tt
      | msg => sys_exit (validation_failure msg)
      end
  | absent => ret tt
  end.

(** [check_repo['data'][module.params['repo_name']]['settings']] *)
Definition current_settings (module : params) (check_repo : check_result)
  : M (gmap string pyval) :=
  match data check_repo with
  | None => raise TypeError
  | Some d =>
      match d !! repo_name module with
      | None => raise (KeyError (repo_name module))
      | Some def =>
          match def_settings def with
          | None => raise (KeyError "settings")
          | Some cs => ret cs
          end
      end
  end.

Definition request_failed (e : exn) : exit_t :=
  fail_json "Request Failed" (Some e).

(** [try: resp = create_repo(module); changed = True;
          module.exit_json(changed=changed, repo_data=resp.json())
    except requests.exceptions.RequestException, err_str:
          module.fail_json(msg='Request Failed', reason=err_str)] *)
Definition try_create (module : params) : M unit :=
  try_except
    (let* resp := create_repo module in
     let* j := resp_json resp in
     sys_exit (exit_json true None (Some j)))
    (λ err_str, sys_exit (request_failed err_str)).

(** the same with [delete_repo] *)
Definition try_delete (module : params) : M unit :=
  try_except
    (let* resp := delete_repo module in
     let* j := resp_json resp in
     sys_exit (exit_json true None (Some j)))
    (λ err_str, sys_exit (request_failed err_str)).

(** [main] from the line after [check_repo = check_repo_exists(module)] *)
Definition main_apply (module : params) (check_repo : check_result) : M unit :=
  match state module with
  | present =>
      let* process_repo :=
        (if found check_repo then
           let rd := create_repo_data module in
           let* cs := current_settings module check_repo in
           ret (needs_update cs (rd_settings rd))
         else ret true) in
      if (process_repo : bool) then
        try_create module
      else
        sys_exit (exit_json false
                    (Some ("Repo " ++ repo_name module ++ " doesn't need an update"))
                    None)
  | absent =>
      if found check_repo then
        try_delete module
      else
        sys_exit (exit_json false
                    (Some ("snapshot repository " ++ repo_name module ++ " not found"))
                    None)
  end.

Definition main (module : params) : M unit :=
  main_validate module >>
  let* check_repo := check_repo_exists module in
  main_apply module check_repo.

End Reconciler.

Arguments M server A : clear implicits.

(** ** Two servers to run the module against *)

(** A scripted server answers the calls with the replies of a list, in
    order, and is unreachable once the list is used up. *)
Definition scripted (s : list reply) (r : request) : list reply * reply :=
  match s with
  | [] => ([], Unreachable)
  | rep :: s' => (s', rep)
  end.

Definition run_scripted (module : params) (s : list reply)
  : res unit * world (list reply) :=
  main scripted module (World s []).

Definition is_credential (k : string) : bool :=
  if decide (k = "access_key") then true
  else if decide (k = "secret_key") then true else false.

(** A stub of the snapshot API that serves the one repository [name]: it
    stores the settings it is posted and answers a GET with everything but
    the credentials. *)
Definition stub_doc (name : string) (d : repo_data) : gmap string repo_def :=
  {[ name := {| def_type := rd_type d;
                def_settings :=
                  Some (list_to_map
                          (filter (λ kv, is_credential kv.1 = false) (rd_settings d))) |} ]}.

Definition stub_handle (name : string) (s : option repo_data) (r : request)
  : option repo_data * reply :=
  match r with
  | GET _ =>
      match s with
      | Some d => (s, Answered (Response 200 (Some (stub_doc name d))))
      | None => (s, Answered (Response 404 (Some ∅)))
      end
  | POST _ d => (Some d, Answered (Response 200 (Some ∅)))
  | DELETE _ =>
      match s with
      | Some _ => (None, Answered (Response 200 (Some ∅)))
      | None => (s, Answered (Response 404 (Some ∅)))
      end
  end.

Definition example_params : params :=
  {| host := "es.local"; port := 9200;
     bucket := Some "logs"; endpoint := Some "my-fake-s3.localdomain.local";
     region := "eu-west-1";
     access_key := Some "AKIA"; secret_key := Some "cfDK";
     max_retries := 3; protocol := http; state := present;
     repo_name := "s3snapshots";
     path_style_access := true; compress := true |}.

Definition example_url : string := "http://es.local:9200/_snapshot/s3snapshots".

(** ** Notions used to state the properties *)

(** the world after one call [r] that left the server in state [s] *)
Definition after {server : Type} (w : world server) (s : server) (r : request)
  : world server :=
  World s (calls w ++ [r]).

(** what [check_repo_exists] makes of the reply to its GET *)
Definition probe_outcome (rep : reply) : res check_result :=
  match rep with
  | Unreachable => Exc ConnectionError
  | Answered resp =>
      if decide (status_code resp = 200) then
        match body resp with
        | Some j => Val {| found := true; error := false; data := Some j |}
        | None => Exc ValueError
        end
      else if decide (status_code resp = 404) then
        Val {| found := false; error := false; data := None |}
      else if decide (400 ≤ status_code resp < 600) then Exc (HTTPError resp)
      else Val {| found := false; error := true; data := None |}
  end.

(** the exception a call of [create_repo]/[delete_repo] raises on a reply *)
Definition request_error (rep : reply) : option exn :=
  match rep with
  | Unreachable => Some ConnectionError
  | Answered resp =>
      if decide (400 ≤ status_code resp < 600) then Some (HTTPError resp) else None
  end.

(** a failure result with a message and a reason *)
Definition structured_failure (r : res unit) : Prop :=
  ∃ msg reason, r = Exit (fail_json msg (Some reason)).

(** the descriptor [p] with the credentials [a] and [s] *)
Definition with_credentials (a s : option string) (p : params) : params :=
  {| host := host p; port := port p; bucket := bucket p; endpoint := endpoint p;
     region := region p; access_key := a; secret_key := s;
     max_retries := max_retries p; protocol := protocol p; state := state p;
     repo_name := repo_name p; path_style_access := path_style_access p;
     compress := compress p |}.




(** what the [try] blocks of [main] make of the reply to their call *)
Definition mutation_outcome (rep : reply) : res unit :=
  match rep with
  | Unreachable => Exit (fail_json "Request Failed" (Some ConnectionError))
  | Answered resp =>
      if decide (400 ≤ status_code resp < 600) then
        Exit (fail_json "Request Failed" (Some (HTTPError resp)))
      else
        match body resp with
        | Some j => Exit (exit_json true None (Some j))
        | None => Exc ValueError
        end
  end.

(** A server that leaves its state alone on a GET of the repository, and
    that after a delete call it answered without an error status answers
    the GET with status 404. *)
Definition forgets {server : Type} (handle : server → request → server * reply)
    (p : params) : Prop :=
  (∀ s, (handle s (GET (get_repo_url p))).1 = s)
  ∧ (∀ s s' resp,
       handle s (DELETE (get_repo_url p)) = (s', Answered resp) →
       ¬ (400 ≤ status_code resp < 600) →
       ∃ resp', handle s' (GET (get_repo_url p)) = (s', Answered resp')
                ∧ status_code resp' = 404).

(** the same endpoint and repository: the parameters [get_repo_url] reads *)
Definition same_target (p p' : params) : Prop :=
  protocol p = protocol p' ∧ host p = host p' ∧ port p = port p'
  ∧ repo_name p = repo_name p'.

(** ** Descriptors and documents the properties are run on *)

Definition no_bucket_no_secret : params :=
  {| host := "es.local"; port := 9200;
     bucket := None; endpoint := Some "my-fake-s3.localdomain.local";
     region := "eu-west-1";
     access_key := Some "AKIA"; secret_key := Some "";
     max_retries := 3; protocol := http; state := present;
     repo_name := "s3snapshots";
     path_style_access := true; compress := true |}.

Definition absent_no_credentials : params :=
  {| host := "es.local"; port := 9200;
     bucket := None; endpoint := None;
     region := "us-east-1";
     access_key := None; secret_key := Some "";
     max_retries := 3; protocol := http; state := absent;
     repo_name := "s3snapshots";
     path_style_access := true; compress := true |}.

Definition uncompressed_params : params :=
  {| host := "es.local"; port := 9200;
     bucket := Some "logs"; endpoint := Some "my-fake-s3.localdomain.local";
     region := "eu-west-1";
     access_key := Some "AKIA"; secret_key := Some "cfDK";
     max_retries := 3; protocol := http; state := present;
     repo_name := "s3snapshots";
     path_style_access := true; compress := false |}.

Definition compressed_def : repo_def :=
  {| def_type := "s3";
     def_settings := Some {[ "compress" := PStr "true" ]} |}.

Definition example_doc : gmap string repo_def :=
  {[ "s3snapshots" :=
       {| def_type := "s3";
          def_settings := Some {[ "bucket" := PStr "logs"; "compress" := PStr "true" ]} |} ]}.

Definition absent_params : params :=
  {| host := "es.local"; port := 9200;
     bucket := Some "logs"; endpoint := Some "my-fake-s3.localdomain.local";
     region := "eu-west-1";
     access_key := Some "AKIA"; secret_key := Some "cfDK";
     max_retries := 3; protocol := http; state := absent;
     repo_name := "s3snapshots";
     path_style_access := true; compress := true |}.

Definition empty_doc : gmap string repo_def :=
  {[ "s3snapshots" := {| def_type := "s3"; def_settings := Some ∅ |} ]}.

(** * Properties *)

(** ** Runs on concrete values *)

Example lower_mixed : lower "Us-EAST-1" = "us-east-1".
Proof. reflexivity. Qed.

Example str_int : py_str (PInt (-42)) = "-42" ∧ py_str (PInt 0) = "0".
Proof. split; reflexivity. Qed.

Example url_example :
  get_repo_url (Params "es.local" 9200 None None "us-east-1" None None 3
                       https absent "s3snapshots" true true)
  = "https://es.local:9200/_snapshot/s3snapshots".
Proof. reflexivity. Qed.

Example run_create :
  run_scripted example_params
    [Answered (Response 404 None); Answered (Response 200 (Some ∅))]
  = (Exit (exit_json true None (Some ∅)),
     World [] [GET example_url; POST example_url (create_repo_data example_params)]).
Proof. vm_compute. reflexivity. Qed.

(** ** The comparison loop *)

Section Loop.

Variable cs : gmap string pyval.

Lemma differs_true c m :
  differs c m = true ↔ lower (py_str c) ≠ lower (py_str m).
Proof. unfold differs. case_decide; split; intros; congruence. Qed.


Lemma needs_update_cons item rest :
  needs_update cs (item :: rest) = mismatch cs item || needs_update cs rest.
Proof.
  unfold needs_update; simpl.
  destruct (mismatch cs item); [reflexivity|].
  destruct (scan cs rest); reflexivity.
Qed.

Lemma needs_update_existsb ms :
  needs_update cs ms = existsb (mismatch cs) ms.
Proof.
  induction ms as [|item rest IH]; [reflexivity|].
  rewrite needs_update_cons, IH. reflexivity.
Qed.


Lemma needs_update_false ms :
  needs_update cs ms = false ↔ Forall (λ item, mismatch cs item = false) ms.
Proof.
  induction ms as [|item rest IH].
  - split; [constructor | reflexivity].
  - rewrite needs_update_cons, orb_false_iff, Forall_cons, IH. reflexivity.
Qed.


Lemma scan_no_break ms :
  Forall (λ i, mismatch cs i = false) ms → scan cs ms = (false, ms.*1).
Proof.
  induction 1 as [|i l Hi _ IH]; simpl; [done|]. by rewrite Hi, IH.
Qed.


End Loop.

(** The loop reads [cs] at the keys of [ms] only. *)
Lemma scan_agree (cs cs' : gmap string pyval) ms :
  (∀ k, k ∈ ms.*1 → cs' !! k = cs !! k) →
  scan cs' ms = scan cs ms.
Proof.
  intros Hag. induction ms as [|[k m] rest IH]; [done|]. simpl.
  assert (mismatch cs' (k, m) = mismatch cs (k, m)) as ->.
  { unfold mismatch; simpl. rewrite Hag; [done|]. simpl. left. }
  rewrite IH; [done|]. intros k' Hk'. apply Hag. simpl. by right.
Qed.

Lemma needs_update_agree (cs cs' : gmap string pyval) ms :
  (∀ k, k ∈ ms.*1 → cs' !! k = cs !! k) →
  needs_update cs' ms = needs_update cs ms.
Proof. intros Hag. unfold needs_update. by rewrite (scan_agree cs cs'). Qed.

(** ** Running the monad *)

Ltac unfold_run :=
  unfold main, main_validate, main_apply, try_create, try_delete,
    check_repo_exists, current_settings,
    create_repo, delete_repo, raise_for_status, resp_json, requests_call,
    try_except, bind, ret, raise, sys_exit in *.

Ltac no_match_inside x :=
  lazymatch x with
  | context [match _ with _ => _ end] => fail
  | _ => idtac
  end.

(** case analysis on an innermost scrutinee *)
Ltac break_match :=
  match goal with
  | |- context [match ?x with _ => _ end] =>
      no_match_inside x;
      match type of x with
      | sumbool _ _ => destruct x
      | _ => destruct x eqn:?
      end
  | H : context [match ?x with _ => _ end] |- _ =>
      no_match_inside x;
      match type of x with
      | sumbool _ _ => destruct x
      | _ => destruct x eqn:?
      end
  end.

Ltac run :=
  unfold_run; simpl in *;
  repeat (break_match; simpl in *; simplify_eq; auto).

Lemma not_in_200_404 (n : Z) : n ∉ [200; 404] ↔ n ≠ 200 ∧ n ≠ 404.
Proof.
  rewrite !not_elem_of_cons. split.
  - intros (? & ? & _). done.
  - intros [? ?]. repeat split; auto. apply not_elem_of_nil.
Qed.

(** closes the cases on the status code that cannot occur *)
Ltac status_cases :=
  try lia;
  repeat match goal with
         | H : context [_ ∉ [200; 404]] |- _ => rewrite not_in_200_404 in H
         end;
  try (exfalso; lia); try tauto.

Section Runs.

Context {server : Type}.
Variable handle : server → request → server * reply.

Implicit Types (p : params) (w : world server) (out : check_result).

(** The probe makes one call, the GET, and never leaves the module. *)
Lemma check_repo_exists_calls p w :
  calls (check_repo_exists handle p w).2 = (calls w ++ [GET (get_repo_url p)])%list.
Proof. run. Qed.

Lemma check_repo_exists_no_exit p w x :
  (check_repo_exists handle p w).1 ≠ Exit x.
Proof. run. Qed.

Lemma main_validation_fails p w :
  state p = present → missing p ≠ [] →
  main handle p w = (Exit (validation_failure (missing p)), w).
Proof.
  intros Hs Hm. unfold main, bind, main_validate. rewrite Hs.
  destruct (missing p); [done|reflexivity].
Qed.

Lemma main_validation_passes p w :
  state p = absent ∨ missing p = [] →
  main handle p w = bind (check_repo_exists handle p) (main_apply handle p) w.
Proof.
  intros H. unfold main, bind at 1, main_validate.
  destruct (state p); [|reflexivity].
  destruct H as [H|H]; [done|]. by rewrite H.
Qed.

(** After the probe the module makes no call or one mutating call. *)
Lemma main_apply_calls p out w :
  let r := main_apply handle p out w in
  calls r.2 = calls w
  ∨ state p = present
    ∧ calls r.2 = (calls w ++ [POST (get_repo_url p) (create_repo_data p)])%list
  ∨ state p = absent ∧ found out = true
    ∧ calls r.2 = (calls w ++ [DELETE (get_repo_url p)])%list.
Proof. run; intuition congruence. Qed.

End Runs.

(** ** Validation of the parameters (state=present) *)

Section Validation.

Context {server : Type}.
Variable handle : server → request → server * reply.

Implicit Types (p : params) (w : world server) (out : check_result).

Lemma main_apply_not_validation p out w names :
  (main_apply handle p out w).1 ≠ Exit (validation_failure names).
Proof. unfold validation_failure. run. Qed.

Lemma missing_nonempty p :
  missing p ≠ []
  ↔ py_not (bucket p) = true ∨ py_not (endpoint p) = true
    ∨ py_not (access_key p) = true ∨ py_not (secret_key p) = true.
Proof.
  unfold missing.
  destruct (py_not (bucket p)), (py_not (endpoint p)),
    (py_not (access_key p)), (py_not (secret_key p)); simpl;
    intuition congruence.
Qed.

Lemma missing_names p f :
  f ∈ missing p
  ↔ f = "bucket" ∧ py_not (bucket p) = true
    ∨ f = "endpoint" ∧ py_not (endpoint p) = true
    ∨ f = "access_key" ∧ py_not (access_key p) = true
    ∨ f = "secret_key" ∧ py_not (secret_key p) = true.
Proof.
  unfold missing.
  destruct (py_not (bucket p)), (py_not (endpoint p)),
    (py_not (access_key p)), (py_not (secret_key p)); simpl;
    rewrite ?elem_of_cons, ?elem_of_nil; intuition congruence.
Qed.

Lemma missing_NoDup p : NoDup (missing p).
Proof.
  unfold missing.
  destruct (py_not (bucket p)), (py_not (endpoint p)),
    (py_not (access_key p)), (py_not (secret_key p)); simpl;
    repeat constructor; rewrite ?elem_of_cons, ?elem_of_nil;
    intuition congruence.
Qed.

(** C2. The parameters are validated if and only if state=present. The
    run fails with the validation message exactly when state=present and
    one of bucket, endpoint, access_key, secret_key is empty; it does so
    before any call is made (the world is untouched, nothing is added to
    the calls), and the message lists the empty fields, each once and no
    other name. With state=absent no choice of the four fields, empty
    credentials included, ends in the validation failure. *)
Theorem validation_rule p w :
  ((∃ names, (main handle p w).1 = Exit (validation_failure names))
   ↔ state p = present
     ∧ (py_not (bucket p) = true ∨ py_not (endpoint p) = true
        ∨ py_not (access_key p) = true ∨ py_not (secret_key p) = true))
  ∧ (state p = present → missing p ≠ [] →
     main handle p w
     = (Exit (fail_json ("required if state=present but not defined: "
                         ++ join ", " (missing p)) None), w))
  ∧ (∀ f, f ∈ missing p
          ↔ f = "bucket" ∧ py_not (bucket p) = true
            ∨ f = "endpoint" ∧ py_not (endpoint p) = true
            ∨ f = "access_key" ∧ py_not (access_key p) = true
            ∨ f = "secret_key" ∧ py_not (secret_key p) = true)
  ∧ NoDup (missing p)
  ∧ (state p = absent →
     ∀ names, (main handle p w).1 ≠ Exit (validation_failure names)).
Proof.
  assert (Hpass : state p = absent ∨ missing p = [] →
                  ∀ names, (main handle p w).1 ≠ Exit (validation_failure names)).
  { intros H names. rewrite main_validation_passes by done.
    unfold bind.
    pose proof (check_repo_exists_no_exit handle p w) as Hne.
    destruct (check_repo_exists handle p w) as [[out|e|x] w']; simpl in *.
    - apply main_apply_not_validation.
    - discriminate.
    - by destruct (Hne x). }
  split; [|split; [|split; [|split]]].
  - rewrite <- missing_nonempty. split.
    + intros [names Hn]. destruct (state p) eqn:Hs.
      * split; [done|]. intros Hm. by apply (Hpass (or_intror Hm) names).
      * by destruct (Hpass (or_introl eq_refl) names).
    + intros [Hs Hm]. exists (missing p).
      by rewrite main_validation_fails.
  - intros Hs Hm. by rewrite main_validation_fails.
  - apply missing_names.
  - apply missing_NoDup.
  - intros Hs. apply Hpass. by left.
Qed.

End Validation.

Lemma validation_rule_witness :
  main scripted no_bucket_no_secret (World [Answered (Response 404 None)] [])
  = (Exit (fail_json "required if state=present but not defined: bucket, secret_key" None),
     World [Answered (Response 404 None)] [])
  ∧ (main scripted absent_no_credentials (World [Answered (Response 404 None)] [])).1
    ≠ Exit (validation_failure ["access_key"; "secret_key"]).
Proof.
  split.
  - apply (proj1 (proj2 (validation_rule scripted no_bucket_no_secret
                           (World [Answered (Response 404 None)] [])))).
    + reflexivity.
    + vm_compute. discriminate.
  - apply (proj2 (proj2 (proj2 (proj2 (validation_rule scripted absent_no_credentials
                           (World [Answered (Response 404 None)] [])))))).
    reflexivity.
Defined.

(** ** The update decision (state=present, repository found) *)

Section Update.

Context {server : Type}.
Variable handle : server → request → server * reply.

Implicit Types (p : params) (w : world server) (out : check_result).

(** what [main] does once the probe found the repository with settings [cs] *)
Lemma main_apply_found p out d def cs w :
  state p = present → found out = true →
  data out = Some d → d !! repo_name p = Some def → def_settings def = Some cs →
  main_apply handle p out w
  = if needs_update cs (rd_settings (create_repo_data p)) then
      try_create handle p w
    else
      (Exit (exit_json false
               (Some ("Repo " ++ repo_name p ++ " doesn't need an update")) None), w).
Proof.
  intros Hs Hf Hd Hn Hc. unfold main_apply, current_settings.
  rewrite Hs, Hf, Hd, Hn, Hc. unfold bind at 1 2, ret.
  by destruct (needs_update _ _).
Qed.

Lemma try_create_calls p w :
  calls (try_create handle p w).2
  = (calls w ++ [POST (get_repo_url p) (create_repo_data p)])%list.
Proof. run. Qed.


End Update.


(** ** The probe: check_repo_exists *)

Section Probe.

Context {server : Type}.
Variable handle : server → request → server * reply.

Implicit Types (p : params) (w : world server) (out : check_result).

Lemma probe_unreachable p w s :
  handle (remote w) (GET (get_repo_url p)) = (s, Unreachable) →
  check_repo_exists handle p w
  = (Exc ConnectionError, after w s (GET (get_repo_url p))).
Proof. intros H. unfold after. run. Qed.

Lemma probe_200 p w s resp j :
  handle (remote w) (GET (get_repo_url p)) = (s, Answered resp) →
  status_code resp = 200 → body resp = Some j →
  check_repo_exists handle p w
  = (Val {| found := true; error := false; data := Some j |},
     after w s (GET (get_repo_url p))).
Proof. intros H H200 Hj. unfold after. run. Qed.

Lemma probe_200_not_json p w s resp :
  handle (remote w) (GET (get_repo_url p)) = (s, Answered resp) →
  status_code resp = 200 → body resp = None →
  check_repo_exists handle p w
  = (Exc ValueError, after w s (GET (get_repo_url p))).
Proof. intros H H200 Hj. unfold after. run. Qed.

Lemma probe_404 p w s resp :
  handle (remote w) (GET (get_repo_url p)) = (s, Answered resp) →
  status_code resp = 404 →
  check_repo_exists handle p w
  = (Val {| found := false; error := false; data := None |},
     after w s (GET (get_repo_url p))).
Proof.
  intros H H404. unfold after. run; status_cases.
Qed.

Lemma probe_http_error p w s resp :
  handle (remote w) (GET (get_repo_url p)) = (s, Answered resp) →
  status_code resp ≠ 404 → 400 ≤ status_code resp < 600 →
  check_repo_exists handle p w
  = (Exc (HTTPError resp), after w s (GET (get_repo_url p))).
Proof.
  intros H H404 Herr. unfold after. run; status_cases.
Qed.

Lemma probe_other p w s resp :
  handle (remote w) (GET (get_repo_url p)) = (s, Answered resp) →
  status_code resp ≠ 200 → status_code resp ≠ 404 →
  ¬ (400 ≤ status_code resp < 600) →
  check_repo_exists handle p w
  = (Val {| found := false; error := true; data := None |},
     after w s (GET (get_repo_url p))).
Proof.
  intros H H200 H404 Herr. unfold after. run; status_cases.
Qed.

End Probe.

Section ProbeRule.

Context {server : Type}.
Variable handle : server → request → server * reply.

Implicit Types (p : params) (w : world server) (out : check_result).

(** C5, as the code has it. The probe makes one GET to
    protocol://host:port/_snapshot/repo_name. On status 200 with a JSON
    body it returns found=true with the body, from which [main] reads
    the settings under the key repo_name; on 404 it returns found=false;
    on any other status from 400 to 599 it raises the HTTP error that
    carries the response (status and body); on every remaining status it
    raises nothing and returns found=false with error=true. *)
Theorem probe_rule p w s resp :
  handle (remote w) (GET (get_repo_url p)) = (s, Answered resp) →
  let w' := World s (calls w ++ [GET (get_repo_url p)]) in
  get_repo_url p
  = protocol_str (protocol p) ++ "://" ++ host p ++ ":" ++ pretty (port p)
      ++ "/_snapshot/" ++ repo_name p
  ∧ (∀ j, status_code resp = 200 → body resp = Some j →
       check_repo_exists handle p w
       = (Val {| found := true; error := false; data := Some j |}, w')
       ∧ ∀ def cs, j !! repo_name p = Some def → def_settings def = Some cs →
           current_settings p {| found := true; error := false; data := Some j |} w'
           = (Val cs, w'))
  ∧ (status_code resp = 404 →
       check_repo_exists handle p w
       = (Val {| found := false; error := false; data := None |}, w'))
  ∧ (status_code resp ≠ 404 → 400 ≤ status_code resp < 600 →
       check_repo_exists handle p w = (Exc (HTTPError resp), w'))
  ∧ (status_code resp ≠ 200 → ¬ (400 ≤ status_code resp < 600) →
       check_repo_exists handle p w
       = (Val {| found := false; error := true; data := None |}, w')).
Proof.
  intros H w'. split; [reflexivity|]. split; [|split; [|split]].
  - intros j H200 Hj. split.
    + by apply probe_200 with resp.
    + intros def cs Hdef Hcs. unfold current_settings; simpl.
      by rewrite Hdef, Hcs.
  - intros H404. by apply probe_404 with resp.
  - intros H404 Herr. by apply probe_http_error.
  - intros H200 Herr. apply (probe_other handle p w s resp); auto. lia.
Qed.

End ProbeRule.

(** C5 as the specification words it fails at status 201: the status is
    neither 200 nor 404 and the probe raises nothing. *)
Lemma probe_201_counterexample :
  (201 ≠ 200 ∧ 201 ≠ 404)
  ∧ check_repo_exists scripted example_params
      (World [Answered (Response 201 (Some ∅))] [])
    = (Val {| found := false; error := true; data := None |},
       World [] [GET example_url])
  ∧ ¬ (∃ e, (check_repo_exists scripted example_params
               (World [Answered (Response 201 (Some ∅))] [])).1 = Exc e).
Proof.
  split; [split; discriminate|]. split.
  - vm_compute. reflexivity.
  - intros [e He]. vm_compute in He. discriminate.
Qed.

Lemma probe_rule_witness :
  check_repo_exists scripted example_params
    (World [Answered (Response 200 (Some example_doc))] [])
  = (Val {| found := true; error := false; data := Some example_doc |},
     World [] [GET example_url])
  ∧ check_repo_exists scripted example_params
      (World [Answered (Response 404 None)] [])
    = (Val {| found := false; error := false; data := None |},
       World [] [GET example_url])
  ∧ check_repo_exists scripted example_params
      (World [Answered (Response 503 None)] [])
    = (Exc (HTTPError (Response 503 None)), World [] [GET example_url])
  ∧ check_repo_exists scripted example_params
      (World [Answered (Response 201 None)] [])
    = (Val {| found := false; error := true; data := None |},
       World [] [GET example_url]).
Proof.
  split; [|split; [|split]].
  - apply (proj1 (proj2 (probe_rule scripted example_params
             (World [Answered (Response 200 (Some example_doc))] []) []
             (Response 200 (Some example_doc)) eq_refl)) example_doc);
      reflexivity.
  - apply (proj1 (proj2 (proj2 (probe_rule scripted example_params
             (World [Answered (Response 404 None)] []) []
             (Response 404 None) eq_refl)))).
    reflexivity.
  - apply (proj1 (proj2 (proj2 (proj2 (probe_rule scripted example_params
             (World [Answered (Response 503 None)] []) []
             (Response 503 None) eq_refl))))); simpl; lia.
  - apply (proj2 (proj2 (proj2 (proj2 (probe_rule scripted example_params
             (World [Answered (Response 201 None)] []) []
             (Response 201 None) eq_refl))))); simpl; lia.
Defined.

(** ** The branches of [main] after the probe *)

Section Branches.

Context {server : Type}.
Variable handle : server → request → server * reply.

Implicit Types (p : params) (w : world server) (out : check_result).

(** [main] never reads [check_repo['error']]. *)
Lemma main_apply_ignores_error p out b w :
  main_apply handle p (set_error b out) w = main_apply handle p out w.
Proof. reflexivity. Qed.

Lemma main_apply_not_found_present p out w :
  state p = present → found out = false →
  main_apply handle p out w = try_create handle p w.
Proof.
  intros Hs Hf. unfold main_apply. rewrite Hs, Hf. reflexivity.
Qed.

Lemma main_apply_not_found_absent p out w :
  state p = absent → found out = false →
  main_apply handle p out w
  = (Exit (exit_json false
             (Some ("snapshot repository " ++ repo_name p ++ " not found")) None), w).
Proof.
  intros Hs Hf. unfold main_apply. rewrite Hs, Hf. reflexivity.
Qed.

Lemma main_apply_found_absent p out w :
  state p = absent → found out = true →
  main_apply handle p out w = try_delete handle p w.
Proof.
  intros Hs Hf. unfold main_apply. rewrite Hs, Hf. reflexivity.
Qed.

Lemma try_delete_calls p w :
  calls (try_delete handle p w).2 = (calls w ++ [DELETE (get_repo_url p)])%list.
Proof. run. Qed.


Lemma try_create_ok p w s resp j :
  handle (remote w) (POST (get_repo_url p) (create_repo_data p)) = (s, Answered resp) →
  ¬ (400 ≤ status_code resp < 600) → body resp = Some j →
  try_create handle p w
  = (Exit (exit_json true None (Some j)),
     World s (calls w ++ [POST (get_repo_url p) (create_repo_data p)])).
Proof. intros H Hok Hj. run; status_cases. Qed.


Lemma try_create_never_unchanged p w m d :
  (try_create handle p w).1 ≠ Exit (exit_json false m d).
Proof. unfold request_failed. run. Qed.

Lemma main_after_probe p w out w1 :
  state p = absent ∨ missing p = [] →
  check_repo_exists handle p w = (Val out, w1) →
  main handle p w = main_apply handle p out w1.
Proof.
  intros Hv Hprobe. rewrite main_validation_passes by done.
  unfold bind. by rewrite Hprobe.
Qed.


End Branches.


(** ** The calls of one run *)

Section Calls.

Context {server : Type}.
Variable handle : server → request → server * reply.

Implicit Types (p : params) (w : world server) (out : check_result).

Lemma main_calls_passed p w :
  state p = absent ∨ missing p = [] →
  ∃ rest,
    calls (main handle p w).2 = (calls w ++ GET (get_repo_url p) :: rest)%list
    ∧ (rest = []
       ∨ rest = [POST (get_repo_url p) (create_repo_data p)] ∧ state p = present
       ∨ rest = [DELETE (get_repo_url p)] ∧ state p = absent).
Proof.
  intros Hv. rewrite main_validation_passes by done. unfold bind.
  pose proof (check_repo_exists_calls handle p w) as Hc.
  destruct (check_repo_exists handle p w) as [[out|e|x] w1]; simpl in Hc.
  - destruct (main_apply_calls handle p out w1) as [H|[[Hs H]|(Hs & Hf & H)]];
      simpl in H; rewrite H, Hc;
      [exists [] | exists [POST (get_repo_url p) (create_repo_data p)]
       | exists [DELETE (get_repo_url p)]];
      rewrite <- ?app_assoc; simpl; split; auto.
  - exists []. simpl. auto.
  - exists []. simpl. auto.
Qed.

(** C4. One run makes no mutating call or exactly one, a create or a
    delete. When state=present and a required field is empty the run
    makes no call at all; in every other case its first call is the GET
    of the probe, and the mutating call, if any, is the only call after
    it. *)
Theorem call_discipline p w :
  ∃ made,
    calls (main handle p w).2 = (calls w ++ made)%list
    ∧ (List.length (mutating_calls made) ≤ 1)%nat
    ∧ (mutating_calls made = []
       ∨ mutating_calls made = [POST (get_repo_url p) (create_repo_data p)]
       ∨ mutating_calls made = [DELETE (get_repo_url p)])
    ∧ (if decide (state p = present ∧ missing p ≠ []) then made = []
       else ∃ rest, made = GET (get_repo_url p) :: rest
                    ∧ mutating_calls rest = rest).
Proof.
  destruct (decide (state p = present ∧ missing p ≠ [])) as [[Hs Hm]|Hv].
  - exists []. rewrite main_validation_fails by done. simpl.
    rewrite app_nil_r. repeat split; auto.
  - assert (state p = absent ∨ missing p = []) as Hpass.
    { destruct (state p); [|by left]. right.
      destruct (missing p); [done|]. exfalso. apply Hv. done. }
    destruct (main_calls_passed p w Hpass) as (rest & Hc & Hrest).
    exists (GET (get_repo_url p) :: rest). split; [done|].
    destruct Hrest as [->|[[-> _]|[-> _]]]; simpl;
      (split; [lia|split; [auto|eexists; split; reflexivity]]).
Qed.

End Calls.

(** ** A status that is neither 200, 404 nor an error *)

Section ErrorFlag.

Context {server : Type}.
Variable handle : server → request → server * reply.

Implicit Types (p : params) (w : world server) (out : check_result).

(** C9. [main] never reads the error flag of the probe. For an answer
    to the GET whose status is neither 200 nor 404 and on which
    raise_for_status raises nothing (201, say), the probe returns
    found=false with error=true, and [main] goes on as for a repository
    that was not found: with state=present (and the required fields
    given) it makes the create call, with state=absent it reports
    changed=false. *)
Theorem error_flag_ignored p w s resp :
  handle (remote w) (GET (get_repo_url p)) = (s, Answered resp) →
  status_code resp ≠ 200 → status_code resp ≠ 404 →
  ¬ (400 ≤ status_code resp < 600) →
  let w1 := World s (calls w ++ [GET (get_repo_url p)]) in
  check_repo_exists handle p w
  = (Val {| found := false; error := true; data := None |}, w1)
  ∧ (∀ out b w0,
       main_apply handle p (set_error b out) w0 = main_apply handle p out w0)
  ∧ (state p = present → missing p = [] →
     main handle p w = try_create handle p w1
     ∧ calls (main handle p w).2
       = (calls w ++ [GET (get_repo_url p);
                      POST (get_repo_url p) (create_repo_data p)])%list)
  ∧ (state p = absent →
     main handle p w
     = (Exit (exit_json false
                (Some ("snapshot repository " ++ repo_name p ++ " not found")) None),
        w1)).
Proof.
  intros H H200 H404 Herr w1.
  pose proof (probe_other handle p w s resp H H200 H404 Herr) as Hprobe.
  fold w1 in Hprobe. unfold after in Hprobe. fold w1 in Hprobe.
  split; [exact Hprobe|]. split; [|split].
  - intros out b w0. apply main_apply_ignores_error.
  - intros Hs Hm.
    rewrite (main_after_probe handle p w _ w1 (or_intror Hm) Hprobe).
    rewrite main_apply_not_found_present by done.
    split; [reflexivity|].
    rewrite try_create_calls. unfold w1; simpl. by rewrite <- app_assoc.
  - intros Hs.
    rewrite (main_after_probe handle p w _ w1 (or_introl Hs) Hprobe).
    by rewrite main_apply_not_found_absent.
Qed.

End ErrorFlag.

Lemma error_flag_ignored_witness :
  calls (main scripted example_params
           (World [Answered (Response 201 None); Answered (Response 200 (Some ∅))] [])).2
  = [GET example_url; POST example_url (create_repo_data example_params)]
  ∧ main scripted absent_params
      (World [Answered (Response 201 None); Answered (Response 200 (Some ∅))] [])
    = (Exit (exit_json false (Some "snapshot repository s3snapshots not found") None),
       World [Answered (Response 200 (Some ∅))] [GET example_url]).
Proof.
  assert (Hst : status_code (Response 201 None) ≠ 200
                ∧ status_code (Response 201 None) ≠ 404
                ∧ ¬ (400 ≤ status_code (Response 201 None) < 600))
    by (simpl; lia).
  destruct Hst as (H200 & H404 & Herr).
  split.
  - apply (proj1 (proj2 (proj2 (error_flag_ignored scripted example_params
             (World [Answered (Response 201 None); Answered (Response 200 (Some ∅))] [])
             [Answered (Response 200 (Some ∅))] (Response 201 None)
             eq_refl H200 H404 Herr))) eq_refl eq_refl).
  - apply (proj2 (proj2 (proj2 (error_flag_ignored scripted absent_params
             (World [Answered (Response 201 None); Answered (Response 200 (Some ∅))] [])
             [Answered (Response 200 (Some ∅))] (Response 201 None)
             eq_refl H200 H404 Herr))) eq_refl).
Defined.

(** ** Keys that only one side has *)

(** C10. Settings that only the remote has never influence the decision:
    adding to the remote settings any keys that are no keys of the desired
    settings (whether by a union on either side or one key at a time)
    leaves the result of the comparison loop unchanged, since the loop
    reads the remote settings at the desired keys only. *)
Theorem remote_only_keys (cs extra : gmap string pyval) (ms : list (string * pyval)) :
  (∀ k, k ∈ ms.*1 → extra !! k = None) →
  needs_update (cs ∪ extra) ms = needs_update cs ms
  ∧ needs_update (extra ∪ cs) ms = needs_update cs ms
  ∧ visited (cs ∪ extra) ms = visited cs ms
  ∧ (∀ k v, extra = {[ k := v ]} →
       needs_update (<[ k := v ]> cs) ms = needs_update cs ms).
Proof.
  intros Hex.
  assert (Hl : ∀ k, k ∈ ms.*1 → (cs ∪ extra) !! k = cs !! k).
  { intros k Hk. apply lookup_union_l. auto. }
  split; [|split; [|split]].
  - by apply needs_update_agree.
  - apply needs_update_agree. intros k Hk. apply lookup_union_r. auto.
  - unfold visited. by rewrite (scan_agree cs (cs ∪ extra)).
  - intros k v ->. apply needs_update_agree. intros k' Hk'.
    apply lookup_insert_ne. intros ->.
    specialize (Hex _ Hk'). by rewrite lookup_singleton_eq in Hex.
Qed.

Lemma remote_only_keys_witness :
  needs_update ({[ "compress" := PStr "TRUE" ]}
                ∪ {[ "server_side_encryption" := PStr "true"; "chunk_size" := PStr "1gb" ]})
    (rd_settings (create_repo_data example_params))
  = needs_update {[ "compress" := PStr "TRUE" ]}
      (rd_settings (create_repo_data example_params)).
Proof.
  apply (remote_only_keys {[ "compress" := PStr "TRUE" ]}
           {[ "server_side_encryption" := PStr "true"; "chunk_size" := PStr "1gb" ]}
           (rd_settings (create_repo_data example_params))).
  intros k Hk. simpl in Hk.
  repeat (apply elem_of_cons in Hk as [->|Hk]; [reflexivity|]).
  by apply elem_of_nil in Hk.
Defined.

Lemma needs_update_credentials (cs : gmap string pyval) a s p :
  cs !! "access_key" = None → cs !! "secret_key" = None →
  needs_update cs (rd_settings (create_repo_data (with_credentials a s p)))
  = needs_update cs (rd_settings (create_repo_data p)).
Proof.
  intros Ha Hs. rewrite !needs_update_existsb. simpl.
  unfold mismatch; simpl. by rewrite Ha, Hs.
Qed.

Section Credentials.

Context {server : Type}.
Variable handle : server → request → server * reply.

Implicit Types (p : params) (w : world server) (out : check_result).

(** C7. Credential changes go unnoticed. Let the probe find the
    repository with settings that hold neither access_key nor
    secret_key, and let the comparison find no difference for the
    descriptor [p]. Then for the descriptor that differs from [p] in
    access_key and secret_key only, the comparison finds no difference
    either, the run makes no mutating call, and (the new credentials
    being non-empty) it ends with changed=false. *)
Theorem credential_blindness p a s out d def cs w w1 :
  state p = present →
  check_repo_exists handle p w = (Val out, w1) →
  found out = true → data out = Some d →
  d !! repo_name p = Some def → def_settings def = Some cs →
  cs !! "access_key" = None → cs !! "secret_key" = None →
  needs_update cs (rd_settings (create_repo_data p)) = false →
  let p' := with_credentials a s p in
  needs_update cs (rd_settings (create_repo_data p')) = false
  ∧ (∃ made, calls (main handle p' w).2 = (calls w ++ made)%list
             ∧ mutating_calls made = [])
  ∧ (missing p' = [] →
     main handle p' w
     = (Exit (exit_json false
                (Some ("Repo " ++ repo_name p ++ " doesn't need an update")) None),
        w1)).
Proof.
  intros Hs Hprobe Hf Hd Hn Hc Ha Hk Hsame p'.
  assert (Hsame' : needs_update cs (rd_settings (create_repo_data p')) = false).
  { unfold p'. by rewrite needs_update_credentials. }
  assert (Hrun : missing p' = [] →
            main handle p' w
            = (Exit (exit_json false
                       (Some ("Repo " ++ repo_name p ++ " doesn't need an update"))
                       None), w1)).
  { intros Hm.
    rewrite (main_after_probe handle p' w out w1 (or_intror Hm) Hprobe).
    rewrite (main_apply_found handle p' out d def cs w1) by done.
    by rewrite Hsame'. }
  split; [done|]. split; [|done].
  destruct (missing p') as [|f fs] eqn:Hm.
  - exists [GET (get_repo_url p)]. rewrite Hrun by done. simpl.
    pose proof (check_repo_exists_calls handle p w) as Hcalls.
    rewrite Hprobe in Hcalls. done.
  - exists []. rewrite main_validation_fails; [|done|by rewrite Hm].
    simpl. by rewrite app_nil_r.
Qed.

End Credentials.

Lemma credential_blindness_witness :
  needs_update {[ "bucket" := PStr "logs"; "compress" := PStr "true" ]}
    (rd_settings (create_repo_data
                    (with_credentials (Some "AKIA-rotated") (Some "cfDK") example_params)))
  = false
  ∧ main scripted (with_credentials (Some "AKIA-rotated") (Some "cfDK") example_params)
      (World [Answered (Response 200 (Some example_doc))] [])
    = (Exit (exit_json false (Some "Repo s3snapshots doesn't need an update") None),
       World [] [GET example_url]).
Proof.
  pose proof (credential_blindness scripted example_params
                (Some "AKIA-rotated") (Some "cfDK")
                (CheckResult true false (Some example_doc)) example_doc
                {| def_type := "s3";
                   def_settings :=
                     Some {[ "bucket" := PStr "logs"; "compress" := PStr "true" ]} |}
                {[ "bucket" := PStr "logs"; "compress" := PStr "true" ]}
                (World [Answered (Response 200 (Some example_doc))] [])
                (World [] [GET example_url])
                eq_refl eq_refl eq_refl eq_refl eq_refl eq_refl eq_refl eq_refl eq_refl)
    as (H1 & _ & H3).
  split; [exact H1 | apply H3; reflexivity].
Defined.

(** ** Failures *)

Section Failures.

Context {server : Type}.
Variable handle : server → request → server * reply.

Implicit Types (p : params) (w : world server) (out : check_result).

Lemma try_create_failed p w s rep e :
  handle (remote w) (POST (get_repo_url p) (create_repo_data p)) = (s, rep) →
  request_error rep = Some e →
  try_create handle p w
  = (Exit (fail_json "Request Failed" (Some e)),
     World s (calls w ++ [POST (get_repo_url p) (create_repo_data p)])).
Proof. intros H He. unfold request_error in He. run; status_cases. Qed.

Lemma try_delete_failed p w s rep e :
  handle (remote w) (DELETE (get_repo_url p)) = (s, rep) →
  request_error rep = Some e →
  try_delete handle p w
  = (Exit (fail_json "Request Failed" (Some e)),
     World s (calls w ++ [DELETE (get_repo_url p)])).
Proof. intros H He. unfold request_error in He. run; status_cases. Qed.

(** after the probe [main] makes no call, or it is one of the two
    [try] blocks *)
Lemma main_apply_shape p out w :
  (main_apply handle p out w).2 = w
  ∨ main_apply handle p out w = try_create handle p w
  ∨ main_apply handle p out w = try_delete handle p w.
Proof.
  unfold main_apply, current_settings, bind, ret, raise, sys_exit.
  repeat (break_match; simpl in *; simplify_eq; auto).
Qed.

Lemma calls_grow (l : list request) r : l ≠ (l ++ [r])%list.
Proof.
  intros H. apply (f_equal List.length) in H.
  rewrite length_app in H. simpl in H. lia.
Qed.

(** C6, as the code has it by design. A validation failure ends the run
    at once, before any call, with a failure result that carries a
    message and no reason. When the mutating call is made and fails,
    unreachable server or an answer with a status from 400 to 599, the
    run ends at once after that call with the failure result of message
    'Request Failed' and the raised exception as reason; that result
    reports nothing as changed. *)
Theorem failure_report p w :
  (state p = present → missing p ≠ [] →
   main handle p w
   = (Exit (fail_json ("required if state=present but not defined: "
                       ++ join ", " (missing p)) None), w))
  ∧ (∀ out w1 req s rep e,
       state p = absent ∨ missing p = [] →
       check_repo_exists handle p w = (Val out, w1) →
       calls (main handle p w).2 = (calls w1 ++ [req])%list →
       handle (remote w1) req = (s, rep) →
       request_error rep = Some e →
       is_mutating req = true
       ∧ main handle p w
         = (Exit (fail_json "Request Failed" (Some e)),
            World s (calls w1 ++ [req]))).
Proof.
  split.
  - intros Hs Hm. by rewrite main_validation_fails.
  - intros out w1 req s rep e Hv Hprobe Hcalls Hreq He.
    rewrite (main_after_probe handle p w out w1 Hv Hprobe) in *.
    destruct (main_apply_shape p out w1) as [Hw|[Heq|Heq]].
    + rewrite Hw in Hcalls. by destruct (calls_grow (calls w1) req).
    + rewrite Heq in *. rewrite try_create_calls in Hcalls.
      apply app_inj_tail in Hcalls as [_ <-].
      split; [reflexivity|]. by apply try_create_failed with rep.
    + rewrite Heq in *. rewrite try_delete_calls in Hcalls.
      apply app_inj_tail in Hcalls as [_ <-].
      split; [reflexivity|]. by apply try_delete_failed with rep.
Qed.

End Failures.

(** C6 as the specification words it fails: a validation failure carries
    no reason; a server that cannot be reached during the probe ends the
    run with the raised exception, not with a failure result; an answer to
    the create call that is not 2xx, but no error status either, is
    reported as changed. *)
Lemma failure_report_counterexample :
  (main scripted no_bucket_no_secret (World [] [])
   = (Exit (fail_json "required if state=present but not defined: bucket, secret_key" None),
      World [] [])
   ∧ ¬ structured_failure (main scripted no_bucket_no_secret (World [] [])).1)
  ∧ (main scripted example_params (World [Unreachable] [])
     = (Exc ConnectionError, World [] [GET example_url])
     ∧ ¬ structured_failure (main scripted example_params (World [Unreachable] [])).1)
  ∧ (main scripted example_params
       (World [Answered (Response 404 None); Answered (Response 304 (Some ∅))] [])).1
    = Exit (exit_json true None (Some ∅)).
Proof.
  split; [|split]; [split| split |].
  - vm_compute. reflexivity.
  - intros (msg & reason & H). vm_compute in H. discriminate.
  - vm_compute. reflexivity.
  - intros (msg & reason & H). vm_compute in H. discriminate.
  - vm_compute. reflexivity.
Qed.

Lemma failure_report_witness :
  main scripted no_bucket_no_secret (World [] [])
  = (Exit (fail_json "required if state=present but not defined: bucket, secret_key" None),
     World [] [])
  ∧ main scripted example_params
      (World [Answered (Response 404 None); Answered (Response 500 None)] [])
    = (Exit (fail_json "Request Failed" (Some (HTTPError (Response 500 None)))),
       World [] [GET example_url; POST example_url (create_repo_data example_params)]).
Proof.
  split.
  - apply (proj1 (failure_report scripted no_bucket_no_secret (World [] []))).
    + reflexivity.
    + vm_compute. discriminate.
  - apply (proj2 (failure_report scripted example_params
             (World [Answered (Response 404 None); Answered (Response 500 None)] []))
             (CheckResult false false None)
             (World [Answered (Response 500 None)] [GET example_url])
             (POST example_url (create_repo_data example_params))
             [] (Answered (Response 500 None)) (HTTPError (Response 500 None))).
    + right. reflexivity.
    + reflexivity.
    + vm_compute. reflexivity.
    + reflexivity.
    + reflexivity.
Defined.

(** ** Idempotence *)




Section Idempotence.

Context {server : Type}.
Variable handle : server → request → server * reply.

Implicit Types (p : params) (w : world server) (out : check_result).

Lemma check_repo_exists_reply p w s rep :
  handle (remote w) (GET (get_repo_url p)) = (s, rep) →
  check_repo_exists handle p w
  = (probe_outcome rep, World s (calls w ++ [GET (get_repo_url p)])).
Proof. intros H. unfold probe_outcome. run; status_cases. Qed.



End Idempotence.

Section IdempotenceRule.

Context {server : Type}.
Variable handle : server → request → server * reply.

Implicit Types (p : params) (w : world server) (out : check_result).


End IdempotenceRule.




(** * Further properties of the module *)

(** ** The shape of a run *)

Section Shape.

Context {server : Type}.
Variable handle : server → request → server * reply.

Implicit Types (p : params) (w : world server) (out : check_result).

Lemma try_create_reply p w s rep :
  handle (remote w) (POST (get_repo_url p) (create_repo_data p)) = (s, rep) →
  try_create handle p w
  = (mutation_outcome rep,
     World s (calls w ++ [POST (get_repo_url p) (create_repo_data p)])).
Proof. intros H. unfold mutation_outcome, request_failed. run; status_cases. Qed.

Lemma try_delete_reply p w s rep :
  handle (remote w) (DELETE (get_repo_url p)) = (s, rep) →
  try_delete handle p w
  = (mutation_outcome rep, World s (calls w ++ [DELETE (get_repo_url p)])).
Proof. intros H. unfold mutation_outcome, request_failed. run; status_cases. Qed.

(** the four ways [main] goes on after the probe *)
Lemma main_apply_cases p out w :
  (∃ m, main_apply handle p out w = (Exit (exit_json false (Some m) None), w))
  ∨ (state p = present ∧ found out = true
     ∧ ∃ e, main_apply handle p out w = (Exc e, w)
            ∧ (e = TypeError ∨ ∃ k, e = KeyError k))
  ∨ (state p = present ∧ main_apply handle p out w = try_create handle p w)
  ∨ (state p = absent ∧ found out = true
     ∧ main_apply handle p out w = try_delete handle p w).
Proof.
  unfold main_apply, current_settings, bind, ret, raise, sys_exit.
  destruct (state p), (found out); simpl; eauto 10.
  destruct (data out) as [d|]; [|right; left; eauto 10].
  destruct (d !! repo_name p) as [def|]; [|right; left; eauto 10].
  destruct (def_settings def) as [cs|]; [|right; left; eauto 10].
  destruct (needs_update cs _); eauto 10.
Qed.

(** the three ways a run starts *)
Lemma main_cases p w :
  (state p = present ∧ missing p ≠ []
   ∧ main handle p w = (Exit (validation_failure (missing p)), w))
  ∨ ((state p = absent ∨ missing p = [])
     ∧ ∃ s rep, handle (remote w) (GET (get_repo_url p)) = (s, rep)
       ∧ ((∃ e, probe_outcome rep = Exc e
                ∧ main handle p w
                  = (Exc e, World s (calls w ++ [GET (get_repo_url p)])))
          ∨ (∃ out, probe_outcome rep = Val out
                ∧ main handle p w
                  = main_apply handle p out
                      (World s (calls w ++ [GET (get_repo_url p)]))))).
Proof.
  destruct (decide (state p = present ∧ missing p ≠ [])) as [[Hs Hm]|Hv].
  - left. by rewrite main_validation_fails.
  - right.
    assert (state p = absent ∨ missing p = []) as Hpass.
    { destruct (state p); [|by left]. right.
      destruct (missing p); [done|]. exfalso. apply Hv. done. }
    split; [done|].
    destruct (handle (remote w) (GET (get_repo_url p))) as [s rep] eqn:Hrep.
    exists s, rep. split; [done|].
    pose proof (check_repo_exists_reply handle p w s rep Hrep) as Hprobe.
    destruct (probe_outcome rep) as [out|e|x] eqn:Hout.
    + right. exists out. split; [done|]. by apply main_after_probe.
    + left. exists e. split; [done|].
      rewrite main_validation_passes by done. unfold bind. by rewrite Hprobe.
    + exfalso. apply (check_repo_exists_no_exit handle p w x). by rewrite Hprobe.
Qed.

End Shape.

Section Outcomes.

Context {server : Type}.
Variable handle : server → request → server * reply.

Implicit Types (p : params) (w : world server) (out : check_result).

(** Every run takes one of six courses. *)
Lemma main_outcomes p w :
  let url := get_repo_url p in
  (state p = present ∧ missing p ≠ []
   ∧ main handle p w = (Exit (validation_failure (missing p)), w))
  ∨ ((state p = absent ∨ missing p = [])
     ∧ ∃ s rep, handle (remote w) (GET url) = (s, rep)
       ∧ let w1 := World s (calls w ++ [GET url]) in
         (∃ e, probe_outcome rep = Exc e ∧ main handle p w = (Exc e, w1))
         ∨ (∃ m, main handle p w = (Exit (exit_json false (Some m) None), w1))
         ∨ (state p = present
            ∧ ∃ e, main handle p w = (Exc e, w1)
                   ∧ (e = TypeError ∨ ∃ k, e = KeyError k))
         ∨ (state p = present
            ∧ ∃ s' rep', handle s (POST url (create_repo_data p)) = (s', rep')
                ∧ main handle p w
                  = (mutation_outcome rep',
                     World s' (calls w1 ++ [POST url (create_repo_data p)])))
         ∨ (state p = absent
            ∧ ∃ s' rep', handle s (DELETE url) = (s', rep')
                ∧ main handle p w
                  = (mutation_outcome rep',
                     World s' (calls w1 ++ [DELETE url])))).
Proof.
  intros url.
  destruct (main_cases handle p w) as [H0|(Hv & s & rep & Hrep & H0)]; [by left|].
  right. split; [done|]. exists s, rep. split; [done|]. simpl.
  destruct H0 as [(e & He & Hm)|(out & Hout & Hm)]; [left; eauto|].
  right. rewrite Hm.
  set (w1 := World s (calls w ++ [GET (get_repo_url p)])).
  destruct (main_apply_cases handle p out w1)
    as [[m H]|[(Hs & _ & e & H & He)|[(Hs & H)|(Hs & _ & H)]]].
  - left. eauto.
  - right; left. split; [done|]. eauto.
  - right; right; left. split; [done|].
    destruct (handle s (POST url (create_repo_data p))) as [s' rep'] eqn:Hp.
    exists s', rep'. split; [done|]. rewrite H.
    by apply try_create_reply.
  - right; right; right. split; [done|].
    destruct (handle s (DELETE url)) as [s' rep'] eqn:Hd.
    exists s', rep'. split; [done|]. rewrite H.
    by apply try_delete_reply.
Qed.

Lemma mutation_outcome_changed rep changed m d :
  mutation_outcome rep = Exit (exit_json changed m d) →
  changed = true ∧ m = None
  ∧ ∃ resp j, rep = Answered resp ∧ ¬ (400 ≤ status_code resp < 600)
              ∧ body resp = Some j ∧ d = Some j.
Proof.
  unfold mutation_outcome. destruct rep as [|resp]; [done|].
  case_decide; [done|]. destruct (body resp) as [j|] eqn:Hj; [|done].
  intros Heq. simplify_eq. eauto 10.
Qed.


Lemma mutation_outcome_raised rep e :
  mutation_outcome rep = Exc e →
  e = ValueError
  ∧ ∃ resp, rep = Answered resp ∧ ¬ (400 ≤ status_code resp < 600)
            ∧ body resp = None.
Proof.
  unfold mutation_outcome. destruct rep as [|resp]; [done|].
  case_decide; [done|]. destruct (body resp) eqn:Hb; [done|].
  intros Heq. simplify_eq. eauto.
Qed.

Lemma mutation_outcome_not_val rep : mutation_outcome rep ≠ Val tt.
Proof.
  unfold mutation_outcome. destruct rep as [|resp]; [done|].
  case_decide; [done|]. by destruct (body resp).
Qed.

Lemma probe_outcome_raised rep e :
  probe_outcome rep = Exc e →
  e = ConnectionError ∧ rep = Unreachable
  ∨ ∃ resp, rep = Answered resp
      ∧ (e = ValueError ∧ status_code resp = 200 ∧ body resp = None
         ∨ e = HTTPError resp ∧ 400 ≤ status_code resp < 600
           ∧ status_code resp ≠ 404).
Proof.
  unfold probe_outcome. destruct rep as [|resp].
  - intros Heq. simplify_eq. by left.
  - intros Heq. right. exists resp. split; [done|].
    repeat case_decide; try discriminate.
    + destruct (body resp); [discriminate|]. simplify_eq. by left.
    + simplify_eq. right. done.
Qed.

End Outcomes.

(** ** What a result says about the run *)

Section Reports.

Context {server : Type}.
Variable handle : server → request → server * reply.

Implicit Types (p : params) (w : world server) (out : check_result).

(** X3. The changed flag tells the truth about the calls. A run that
    reports changed=true made the GET of the probe and then exactly one
    mutating call, which was answered without an error status and with the
    JSON body the result carries; a run that reports changed=false made
    the GET and nothing else, and carries a message and no body. *)
Theorem changed_flag_accurate p w changed m d :
  (main handle p w).1 = Exit (exit_json changed m d) →
  let url := get_repo_url p in
  let s1 := (handle (remote w) (GET url)).1 in
  if changed then
    m = None
    ∧ ∃ req s resp j,
        is_mutating req = true
        ∧ calls (main handle p w).2 = (calls w ++ [GET url; req])%list
        ∧ handle s1 req = (s, Answered resp)
        ∧ ¬ (400 ≤ status_code resp < 600)
        ∧ body resp = Some j ∧ d = Some j
  else
    calls (main handle p w).2 = (calls w ++ [GET url])%list
    ∧ remote (main handle p w).2 = s1
    ∧ d = None ∧ ∃ text, m = Some text.
Proof.
  intros Hres url s1.
  destruct (main_outcomes handle p w)
    as [(_ & _ & H)|(_ & s & rep & Hrep & H)].
  { rewrite H in Hres. discriminate. }
  assert (s1 = s) as -> by (unfold s1, url; by rewrite Hrep).
  simpl in H.
  destruct H as [(e & _ & H)|[[m' H]|[(_ & e & H & _)|
                 [(_ & s' & rep' & Hc & H)|(_ & s' & rep' & Hc & H)]]]];
    rewrite H in *; simpl in Hres; simplify_eq.
  - simpl. eauto.
  - apply mutation_outcome_changed in Hres
      as (-> & -> & resp & j & -> & Hok & Hj & ->).
    split; [done|]. exists (POST url (create_repo_data p)), s', resp, j.
    simpl. rewrite <- app_assoc. done.
  - apply mutation_outcome_changed in Hres
      as (-> & -> & resp & j & -> & Hok & Hj & ->).
    split; [done|]. exists (DELETE url), s', resp, j.
    simpl. rewrite <- app_assoc. done.
Qed.


(** X5. Where an escaping exception comes from. When a run ends with an
    exception instead of a result, either only the GET of the probe was
    made (the probe raised it, or the answer lacks the repository or its
    settings), or a mutating call was made and answered without an error
    status but with a body that is not JSON, and the exception is
    [ValueError]. An exception of the [requests] library escapes from the
    probe only. *)
Theorem escaped_exception_origin p w e :
  (main handle p w).1 = Exc e →
  let url := get_repo_url p in
  (calls (main handle p w).2 = (calls w ++ [GET url])%list
   ∧ (is_RequestException e = true →
      probe_outcome (handle (remote w) (GET url)).2 = Exc e))
  ∨ (e = ValueError
     ∧ ∃ req s resp,
         is_mutating req = true
         ∧ calls (main handle p w).2 = (calls w ++ [GET url; req])%list
         ∧ handle (handle (remote w) (GET url)).1 req = (s, Answered resp)
         ∧ ¬ (400 ≤ status_code resp < 600) ∧ body resp = None).
Proof.
  intros Hres url.
  destruct (main_outcomes handle p w)
    as [(_ & _ & H)|(_ & s & rep & Hrep & H)].
  { rewrite H in Hres. discriminate. }
  fold url in Hrep. rewrite Hrep. simpl in H.
  destruct H as [(e' & He' & H)|[[m' H]|[(_ & e' & H & He')|
                 [(_ & s' & rep' & Hc & H)|(_ & s' & rep' & Hc & H)]]]];
    rewrite H in *; simpl in Hres; simplify_eq.
  - left. simpl. done.
  - left. simpl. split; [done|].
    destruct He' as [->|[k ->]]; discriminate.
  - right. apply mutation_outcome_raised in Hres as (-> & resp & -> & Hok & Hb).
    split; [done|]. exists (POST url (create_repo_data p)), s', resp.
    simpl. rewrite <- app_assoc. done.
  - right. apply mutation_outcome_raised in Hres as (-> & resp & -> & Hok & Hb).
    split; [done|]. exists (DELETE url), s', resp.
    simpl. rewrite <- app_assoc. done.
Qed.

(** X6. No run falls off the end of [main]: every run ends in
    [exit_json], in [fail_json] or with an exception. *)
Theorem main_always_exits p w :
  (∃ changed m d, (main handle p w).1 = Exit (exit_json changed m d))
  ∨ (∃ msg r, (main handle p w).1 = Exit (fail_json msg r))
  ∨ (∃ e, (main handle p w).1 = Exc e).
Proof.
  destruct (main_outcomes handle p w)
    as [(_ & _ & H)|(_ & s & rep & Hrep & H)].
  { right; left. rewrite H. unfold validation_failure. simpl. eauto. }
  simpl in H.
  destruct H as [(e' & He' & H)|[[m' H]|[(_ & e' & H & He')|
                 [(_ & s' & rep' & Hc & H)|(_ & s' & rep' & Hc & H)]]]];
    rewrite H; simpl; eauto 10;
    (destruct (mutation_outcome rep') as [[]|e|[c m d|msg r]] eqn:Hmo;
     [by destruct (mutation_outcome_not_val rep')|eauto 10..]).
Qed.

(** X2. What the module posts. Every POST of a run goes to the repository
    URL, carries the payload of [create_repo_data], and is made only with
    state=present and with bucket, endpoint, access_key and secret_key all
    non-empty. *)
Theorem post_payload_valid p w made u d :
  calls (main handle p w).2 = (calls w ++ made)%list →
  POST u d ∈ made →
  u = get_repo_url p ∧ d = create_repo_data p ∧ state p = present
  ∧ py_not (bucket p) = false ∧ py_not (endpoint p) = false
  ∧ py_not (access_key p) = false ∧ py_not (secret_key p) = false.
Proof.
  intros Hcalls Hin.
  assert (Hvalid : missing p = [] →
            py_not (bucket p) = false ∧ py_not (endpoint p) = false
            ∧ py_not (access_key p) = false ∧ py_not (secret_key p) = false).
  { unfold missing.
    destruct (py_not (bucket p)), (py_not (endpoint p)),
      (py_not (access_key p)), (py_not (secret_key p)); done. }
  assert (Hgone : ∀ l : list request, POST u d ∈ l →
            (∀ r, r ∈ l → is_mutating r = false ∨ r = DELETE (get_repo_url p)) → False).
  { intros l Hl Hall. destruct (Hall _ Hl) as [?|?]; done. }
  destruct (main_outcomes handle p w)
    as [(_ & _ & H)|(Hv & s & rep & Hrep & H)].
  { rewrite H in Hcalls. simpl in Hcalls.
    rewrite <- (app_nil_r (calls w)) in Hcalls at 1.
    apply app_inv_head in Hcalls as <-. by apply elem_of_nil in Hin. }
  simpl in H.
  destruct H as [(e' & He' & H)|[[m' H]|[(_ & e' & H & He')|
                 [(Hs & s' & rep' & Hc & H)|(_ & s' & rep' & Hc & H)]]]];
    rewrite H in Hcalls; simpl in Hcalls;
    rewrite <- ?app_assoc in Hcalls; apply app_inv_head in Hcalls as <-.
  1-3: exfalso; apply (Hgone _ Hin); intros r Hr;
       apply list_elem_of_singleton in Hr as ->; by left.
  - apply elem_of_cons in Hin as [Hin|Hin]; [done|].
    apply list_elem_of_singleton in Hin. simplify_eq.
    destruct Hv as [Hv|Hv]; [congruence|].
    split; [done|]. split; [done|]. split; [done|]. by apply Hvalid.
  - exfalso. apply (Hgone _ Hin). intros r Hr.
    apply elem_of_cons in Hr as [->|Hr]; [by left|].
    apply list_elem_of_singleton in Hr as ->. by right.
Qed.

End Reports.

Lemma changed_flag_accurate_witness :
  ∃ req, is_mutating req = true
         ∧ calls (main scripted example_params
                    (World [Answered (Response 404 None);
                            Answered (Response 200 (Some ∅))] [])).2
           = [GET example_url; req].
Proof.
  destruct (changed_flag_accurate scripted example_params
              (World [Answered (Response 404 None);
                      Answered (Response 200 (Some ∅))] [])
              true None (Some ∅) eq_refl)
    as (_ & req & s & resp & j & Hm & Hc & _).
  exists req. split; [exact Hm | exact Hc].
Defined.


Lemma escaped_exception_origin_witness :
  calls (main scripted example_params (World [Unreachable] [])).2
  = [GET example_url].
Proof.
  destruct (escaped_exception_origin scripted example_params
              (World [Unreachable] []) ConnectionError eq_refl)
    as [[Hc _]|(He & _)].
  - exact Hc.
  - discriminate He.
Defined.

Lemma post_payload_valid_witness :
  py_not (bucket example_params) = false
  ∧ py_not (secret_key example_params) = false.
Proof.
  destruct (post_payload_valid scripted example_params
              (World [Answered (Response 404 None);
                      Answered (Response 200 (Some ∅))] [])
              [GET example_url; POST example_url (create_repo_data example_params)]
              example_url (create_repo_data example_params) eq_refl)
    as (_ & _ & _ & Hb & _ & _ & Hk).
  - apply elem_of_cons. right. apply elem_of_cons. left. reflexivity.
  - split; [exact Hb | exact Hk].
Defined.

(** ** create_repo and delete_repo *)

Section Mutations.

Context {server : Type}.
Variable handle : server → request → server * reply.

Implicit Types (p : params) (w : world server) (out : check_result).

(** X1. [create_repo] and [delete_repo] make exactly one call each, the
    POST of the payload and the DELETE, to the repository URL. The
    response they return is the answer to that call and never has a status
    from 400 to 599; the exception they raise is one of the [requests]
    library: the server was unreachable or answered with such a status. *)
Theorem mutation_postcondition p w :
  let url := get_repo_url p in
  (calls (create_repo handle p w).2 = (calls w ++ [POST url (create_repo_data p)])%list
   ∧ calls (delete_repo handle p w).2 = (calls w ++ [DELETE url])%list)
  ∧ (∀ resp,
       (create_repo handle p w).1 = Val resp →
       (handle (remote w) (POST url (create_repo_data p))).2 = Answered resp
       ∧ ¬ (400 ≤ status_code resp < 600))
  ∧ (∀ resp,
       (delete_repo handle p w).1 = Val resp →
       (handle (remote w) (DELETE url)).2 = Answered resp
       ∧ ¬ (400 ≤ status_code resp < 600))
  ∧ (∀ e,
       (create_repo handle p w).1 = Exc e →
       request_error (handle (remote w) (POST url (create_repo_data p))).2 = Some e)
  ∧ (∀ e,
       (delete_repo handle p w).1 = Exc e →
       request_error (handle (remote w) (DELETE url)).2 = Some e)
  ∧ (∀ x, (create_repo handle p w).1 ≠ Exit x ∧ (delete_repo handle p w).1 ≠ Exit x).
Proof.
  intros url. unfold url, request_error.
  split; [split; run|].
  split; [intros resp; run; intros; simplify_eq; done|].
  split; [intros resp; run; intros; simplify_eq; done|].
  split; [intros e; run; intros; simplify_eq; done|].
  split; [intros e; run; intros; simplify_eq; done|].
  intros x. split; run.
Qed.

End Mutations.

Lemma mutation_postcondition_witness :
  ¬ (400 ≤ status_code (Response 201 None) < 600)
  ∧ request_error (Answered (Response 403 None)) = Some (HTTPError (Response 403 None)).
Proof.
  split.
  - apply (proj1 (proj2 (mutation_postcondition scripted example_params
                           (World [Answered (Response 201 None)] [])))
             (Response 201 None) eq_refl).
  - apply (proj1 (proj2 (proj2 (proj2 (proj2
             (mutation_postcondition scripted example_params
                (World [Answered (Response 403 None)] []))))))
             (HTTPError (Response 403 None)) eq_refl).
Defined.

(** ** More branches of [main] *)

Section MoreBranches.

Context {server : Type}.
Variable handle : server → request → server * reply.

Implicit Types (p : params) (w : world server) (out : check_result).


(** X9. An answer that lacks the repository. With state=present, the
    required fields given and the GET answered with 200 and a JSON body:
    when the body has no member for the repository name, or that member
    has no settings, the run ends with a [KeyError] for the missing key,
    having made no call but the GET. With state=absent the body is not
    looked into: the same answers lead to the DELETE. *)
Theorem found_without_settings p w s resp j :
  handle (remote w) (GET (get_repo_url p)) = (s, Answered resp) →
  status_code resp = 200 → body resp = Some j →
  let w1 := World s (calls w ++ [GET (get_repo_url p)]) in
  (state p = present → missing p = [] → j !! repo_name p = None →
     main handle p w = (Exc (KeyError (repo_name p)), w1))
  ∧ (∀ def, state p = present → missing p = [] →
       j !! repo_name p = Some def → def_settings def = None →
       main handle p w = (Exc (KeyError "settings"), w1))
  ∧ (state p = absent →
     calls (main handle p w).2
     = (calls w ++ [GET (get_repo_url p); DELETE (get_repo_url p)])%list).
Proof.
  intros Hget H200 Hj w1.
  pose proof (probe_200 handle p w s resp j Hget H200 Hj) as Hprobe.
  split; [|split].
  - intros Hs Hm Hnone.
    rewrite (main_after_probe handle p w _ _ (or_intror Hm) Hprobe).
    unfold main_apply, current_settings, bind, raise. rewrite Hs. simpl.
    by rewrite Hnone.
  - intros def Hs Hm Hdef Hset.
    rewrite (main_after_probe handle p w _ _ (or_intror Hm) Hprobe).
    unfold main_apply, current_settings, bind, raise. rewrite Hs. simpl.
    by rewrite Hdef, Hset.
  - intros Hs.
    rewrite (main_after_probe handle p w _ _ (or_introl Hs) Hprobe).
    rewrite main_apply_found_absent by done.
    rewrite try_delete_calls. unfold after. simpl. by rewrite <- app_assoc.
Qed.

(** X10. Removing a repository reads nothing but its address. Two
    descriptors with state=absent that agree on protocol, host, port and
    repo_name run alike, result and calls, whatever their bucket,
    endpoint, region, credentials, max_retries, path_style_access and
    compress. *)
Theorem absent_ignores_storage_settings p p' w :
  state p = absent → state p' = absent → same_target p p' →
  main handle p w = main handle p' w.
Proof.
  intros Hs Hs' (Hpr & Hh & Hpo & Hn).
  destruct p, p'; simpl in *; subst. reflexivity.
Qed.

End MoreBranches.


Lemma found_without_settings_witness :
  main scripted example_params (World [Answered (Response 200 (Some ∅))] [])
  = (Exc (KeyError "s3snapshots"), World [] [GET example_url]).
Proof.
  apply (proj1 (found_without_settings scripted example_params
                  (World [Answered (Response 200 (Some ∅))] []) []
                  (Response 200 (Some ∅)) ∅ eq_refl eq_refl eq_refl));
    reflexivity.
Defined.

Lemma absent_ignores_storage_settings_witness :
  main scripted absent_params
    (World [Answered (Response 200 (Some ∅)); Answered (Response 200 (Some ∅))] [])
  = main scripted absent_no_credentials
      (World [Answered (Response 200 (Some ∅)); Answered (Response 200 (Some ∅))] []).
Proof.
  apply (absent_ignores_storage_settings scripted absent_params absent_no_credentials).
  - reflexivity.
  - reflexivity.
  - repeat split; reflexivity.
Defined.

(** ** Removing twice *)

Section AbsentTwice.

Context {server : Type}.
Variable handle : server → request → server * reply.

Implicit Types (p : params) (w : world server) (out : check_result).

Lemma not_found_run p w resp :
  state p = absent →
  handle (remote w) (GET (get_repo_url p)) = (remote w, Answered resp) →
  status_code resp = 404 →
  main handle p w
  = (Exit (exit_json false
             (Some ("snapshot repository " ++ repo_name p ++ " not found")) None),
     World (remote w) (calls w ++ [GET (get_repo_url p)])).
Proof.
  intros Hs Hget H404.
  pose proof (probe_404 handle p w _ resp Hget H404) as Hprobe.
  rewrite (main_after_probe handle p w _ _ (or_introl Hs) Hprobe).
  by rewrite main_apply_not_found_absent.
Qed.

(** X11. Removing is idempotent. Against a remote that a GET leaves
    unchanged and that answers the GET with 404 once it has answered the
    DELETE without an error status: after a run with state=absent that
    ended in success (with or without a change), a second run with the
    same descriptor, started from the world the first run left, makes the
    GET of the probe and no other call and reports changed=false. *)
Theorem removing_twice p w changed m d :
  forgets handle p →
  state p = absent →
  (main handle p w).1 = Exit (exit_json changed m d) →
  let w1 := (main handle p w).2 in
  main handle p w1
  = (Exit (exit_json false
             (Some ("snapshot repository " ++ repo_name p ++ " not found")) None),
     World (remote w1) (calls w1 ++ [GET (get_repo_url p)])).
Proof.
  intros [Hget Hdel] Hs Hfirst w1.
  destruct (handle (remote w) (GET (get_repo_url p))) as [s0 rep0] eqn:Hrep.
  assert (s0 = remote w) as ->.
  { specialize (Hget (remote w)). by rewrite Hrep in Hget. }
  pose proof (check_repo_exists_reply handle p w _ _ Hrep) as Hprobe.
  set (w0 := World (remote w) (calls w ++ [GET (get_repo_url p)])) in *.
  destruct (probe_outcome rep0) as [out|e|x] eqn:Hout.
  2: { exfalso. rewrite main_validation_passes in Hfirst by auto.
       unfold bind in Hfirst. rewrite Hprobe in Hfirst. discriminate. }
  2: { exfalso. by apply (check_repo_exists_no_exit handle p w x); rewrite Hprobe. }
  assert (Hmain : main handle p w = main_apply handle p out w0)
    by (by apply main_after_probe; [left|]).
  unfold w1. rewrite Hmain in *.
  destruct (found out) eqn:Hf.
  - (* the repository was there: the DELETE was answered *)
    rewrite main_apply_found_absent in * by done.
    destruct (handle (remote w0) (DELETE (get_repo_url p))) as [s' rep'] eqn:Hd.
    rewrite (try_delete_reply handle p w0 s' rep' Hd) in *. simpl in Hfirst.
    apply mutation_outcome_changed in Hfirst
      as (_ & _ & resp & j & -> & Hok & _ & _).
    destruct (Hdel _ _ _ Hd Hok) as (resp' & Hg & H404).
    apply (not_found_run p (World s' _) resp'); done.
  - (* it was not: the same answer comes again *)
    rewrite main_apply_not_found_absent in * by done. simpl.
    destruct rep0 as [|resp]; [done|]. simpl in Hout.
    destruct (decide (status_code resp = 200)) as [H200|H200].
    { destruct (body resp); simplify_eq. }
    destruct (decide (status_code resp = 404)) as [H404|H404].
    + by apply (not_found_run p w0 resp).
    + (* neither 200 nor 404, and no error status *)
      case_decide; [done|].
      assert (Hother : check_repo_exists handle p w0
                = (Val {| found := false; error := true; data := None |},
                   after w0 (remote w0) (GET (get_repo_url p))))
        by (apply (probe_other handle p w0 _ resp); done).
      rewrite (main_after_probe handle p w0 _ _ (or_introl Hs) Hother).
      by rewrite main_apply_not_found_absent.
Qed.

End AbsentTwice.

Lemma stub_forgets p : forgets (stub_handle (repo_name p)) p.
Proof.
  split; [intros [d|]; reflexivity|].
  intros [d|] s' resp Hd Hok; simpl in Hd; simplify_eq.
  - eexists. split; reflexivity.
  - exfalso. apply Hok. simpl. lia.
Qed.

Lemma removing_twice_witness :
  (main (stub_handle "s3snapshots") absent_params
     (World (Some (create_repo_data example_params)) [])).1
  = Exit (exit_json true None (Some ∅))
  ∧ main (stub_handle "s3snapshots") absent_params
      (main (stub_handle "s3snapshots") absent_params
         (World (Some (create_repo_data example_params)) [])).2
    = (Exit (exit_json false (Some "snapshot repository s3snapshots not found") None),
       World None [GET example_url; DELETE example_url; GET example_url]).
Proof.
  split; [reflexivity|].
  apply (removing_twice (stub_handle "s3snapshots") absent_params
           (World (Some (create_repo_data example_params)) [])
           true None (Some ∅) (stub_forgets absent_params) eq_refl eq_refl).
Defined.

(** ** The comparison of two values *)



Lemma differs_false a b :
  differs a b = false ↔ lower (py_str a) = lower (py_str b).
Proof. unfold differs. case_decide; split; intros; congruence. Qed.



Lemma lower_pretty_N_char x : lower_ascii (pretty_N_char x) = pretty_N_char x.
Proof. unfold pretty_N_char. repeat case_match; reflexivity. Qed.

Lemma lower_pretty_N_go x s :
  lower s = s → lower (pretty_N_go x s) = pretty_N_go x s.
Proof.
  revert s. induction (N.lt_wf_0 x) as [x _ IH]. intros s Hs.
  destruct (decide (0 < x)%N) as [Hx|Hx].
  - rewrite pretty_N_go_step by done. apply IH.
    + by apply N.div_lt.
    + simpl. by rewrite lower_pretty_N_char, Hs.
  - assert (x = 0%N) as -> by lia. by rewrite pretty_N_go_0.
Qed.

Lemma lower_pretty_N (x : N) : lower (pretty x) = pretty x.
Proof.
  unfold pretty, pretty_N. case_decide; [done|]. by apply lower_pretty_N_go.
Qed.

Lemma lower_pretty_Z (n : Z) : lower (pretty n) = pretty n.
Proof.
  destruct n as [|x|x]; [done| |].
  - apply (lower_pretty_N (Npos x)).
  - change (pretty (Zneg x)) with ("-" ++ pretty (Npos x)).
    simpl. f_equal. apply (lower_pretty_N (Npos x)).
Qed.

(** X13. Numbers and booleans compare by value. Two integers differ
    exactly when they are different numbers, two booleans exactly when
    they are different; a remote value that is the decimal text of the
    desired integer does not differ from it, and a remote text does not
    differ from a desired boolean exactly when, lower-cased, it reads
    true or false accordingly. *)
Theorem comparison_of_numbers :
  (∀ a b : Z, differs (PInt a) (PInt b) = true ↔ a ≠ b)
  ∧ (∀ a b : bool, differs (PBool a) (PBool b) = true ↔ a ≠ b)
  ∧ (∀ n : Z, differs (PStr (pretty n)) (PInt n) = false)
  ∧ (∀ s (b : bool),
       differs (PStr s) (PBool b) = false
       ↔ lower s = if b then "true" else "false").
Proof.
  split; [|split; [|split]].
  - intros a b. rewrite differs_true. simpl. rewrite !lower_pretty_Z.
    split.
    + intros Hne ->. done.
    + intros Hne Heq. apply Hne. by apply (inj pretty).
  - intros [] []; rewrite differs_true; simpl; split; intros; congruence.
  - intros n. apply differs_false. done.
  - intros s []; rewrite differs_false; simpl; done.
Qed.

Lemma comparison_of_numbers_witness :
  differs (PInt 3) (PInt 5) = true ∧ differs (PStr "TRUE") (PBool true) = false.
Proof.
  split.
  - apply (proj1 comparison_of_numbers 3 5). lia.
  - apply (proj2 (proj2 (proj2 comparison_of_numbers)) "TRUE" true). reflexivity.
Defined.

(** ** Remote settings that share no key with the desired ones *)

Section Unshared.

Context {server : Type}.
Variable handle : server → request → server * reply.

Implicit Types (p : params) (w : world server) (out : check_result).

(** X14. A repository whose settings share no key with the desired ones
    is never updated. When the probe found the repository and its
    settings hold none of the eight keys of the payload (an empty settings
    object, say), the loop visits all eight keys, finds no mismatch, and
    the run with state=present reports changed=false without a further
    call, whatever the descriptor says. *)
Theorem unshared_settings_never_update p out d def cs w :
  state p = present → found out = true →
  data out = Some d → d !! repo_name p = Some def → def_settings def = Some cs →
  (∀ k, k ∈ (rd_settings (create_repo_data p)).*1 → cs !! k = None) →
  needs_update cs (rd_settings (create_repo_data p)) = false
  ∧ visited cs (rd_settings (create_repo_data p))
    = ["bucket"; "endpoint"; "region"; "access_key"; "secret_key";
       "max_retries"; "path_style_access"; "compress"]
  ∧ main_apply handle p out w
    = (Exit (exit_json false
               (Some ("Repo " ++ repo_name p ++ " doesn't need an update")) None), w).
Proof.
  intros Hs Hf Hd Hn Hc Hnone.
  assert (Hall : Forall (λ i, mismatch cs i = false) (rd_settings (create_repo_data p))).
  { apply Forall_forall. intros [k m] Hin. unfold mismatch; simpl.
    rewrite Hnone; [done|]. apply list_elem_of_fmap. by exists (k, m). }
  assert (Hno : needs_update cs (rd_settings (create_repo_data p)) = false)
    by (by apply needs_update_false).
  split; [done|]. split.
  - unfold visited. by rewrite (scan_no_break cs _ Hall).
  - rewrite (main_apply_found handle p out d def cs w) by done. by rewrite Hno.
Qed.

End Unshared.

Lemma unshared_settings_never_update_witness :
  main_apply scripted uncompressed_params
    (CheckResult true false (Some empty_doc)) (World [] [GET example_url])
  = (Exit (exit_json false (Some "Repo s3snapshots doesn't need an update") None),
     World [] [GET example_url]).
Proof.
  refine (proj2 (proj2 (unshared_settings_never_update scripted uncompressed_params
                          (CheckResult true false (Some empty_doc)) empty_doc
                          {| def_type := "s3"; def_settings := Some ∅ |} ∅
                          (World [] [GET example_url]) _ _ _ _ _ _)));
    reflexivity.
Defined.

(** ** The repository URL and the list of missing fields *)

Lemma string_app_inv_head (s a b : string) : s ++ a = s ++ b → a = b.
Proof.
  induction s as [|c s IH]; simpl; [done|]. intros H. apply IH. by simplify_eq.
Qed.

(** X15. The URL tells the repositories of one endpoint apart. Two
    descriptors with the same URL have the same protocol, and if they
    also agree on host and port they name the same repository: the probe,
    the create and the delete of one repository never address another
    repository of the same endpoint. *)
Theorem repo_url_tells_apart p p' :
  get_repo_url p = get_repo_url p' →
  protocol p = protocol p'
  ∧ (host p = host p' → port p = port p' → repo_name p = repo_name p').
Proof.
  unfold get_repo_url. intros Hurl.
  assert (Hpr : protocol p = protocol p').
  { destruct (protocol p), (protocol p'); simpl in Hurl; try done;
      simplify_eq. }
  split; [done|]. intros Hh Hpo.
  rewrite Hpr, Hh, Hpo in Hurl.
  repeat apply string_app_inv_head in Hurl. done.
Qed.

Lemma repo_url_tells_apart_witness :
  repo_name absent_params = repo_name example_params.
Proof.
  apply (repo_url_tells_apart absent_params example_params); reflexivity.
Defined.

(** X16. The names of the missing fields come in one fixed order: bucket,
    endpoint, access_key, secret_key, whichever of them are listed. *)
Theorem missing_order p :
  sublist (missing p) ["bucket"; "endpoint"; "access_key"; "secret_key"].
Proof.
  unfold missing.
  destruct (py_not (bucket p)), (py_not (endpoint p)),
    (py_not (access_key p)), (py_not (secret_key p)); simpl;
    repeat (first [apply sublist_skip | apply sublist_cons | apply sublist_nil]).
Qed.

Lemma missing_order_example :
  missing no_bucket_no_secret = ["bucket"; "secret_key"].
Proof. reflexivity. Qed.

(** ** A probe that fails, an update that succeeds *)

Section ProbeFailure.

Context {server : Type}.
Variable handle : server → request → server * reply.

Implicit Types (p : params) (w : world server) (out : check_result).

(** X17. A failing probe is not turned into a failure result. Once the
    validation is passed, a GET that cannot reach the server, that is
    answered with 200 and a body that is not JSON, or that is answered
    with a status from 400 to 599 other than 404, ends the run with the
    exception raised ([ConnectionError], [ValueError], the HTTP error with
    the response): no [fail_json], no [exit_json], and no call but the
    GET. *)
Theorem probe_failure_escapes p w s rep :
  state p = absent ∨ missing p = [] →
  handle (remote w) (GET (get_repo_url p)) = (s, rep) →
  let w1 := World s (calls w ++ [GET (get_repo_url p)]) in
  (rep = Unreachable → main handle p w = (Exc ConnectionError, w1))
  ∧ (∀ resp, rep = Answered resp → status_code resp = 200 → body resp = None →
       main handle p w = (Exc ValueError, w1))
  ∧ (∀ resp, rep = Answered resp →
       400 ≤ status_code resp < 600 → status_code resp ≠ 404 →
       main handle p w = (Exc (HTTPError resp), w1)).
Proof.
  intros Hv Hget w1.
  assert (Hrun : ∀ e, check_repo_exists handle p w = (Exc e, w1) →
                      main handle p w = (Exc e, w1)).
  { intros e Hprobe. rewrite main_validation_passes by done.
    unfold bind. by rewrite Hprobe. }
  split; [|split].
  - intros ->. apply Hrun. by apply probe_unreachable.
  - intros resp -> H200 Hb. apply Hrun. by apply (probe_200_not_json handle p w s resp).
  - intros resp -> Herr H404. apply Hrun. by apply probe_http_error.
Qed.

(** X8. An update that succeeds is reported as a change. With
    state=present, a repository the probe found and settings in which the
    loop finds a mismatch, the create call answered without an error
    status and with a JSON body ends the run with changed=true and that
    body. *)
Theorem update_reports_changed p out d def cs w s resp j :
  state p = present → found out = true →
  data out = Some d → d !! repo_name p = Some def → def_settings def = Some cs →
  needs_update cs (rd_settings (create_repo_data p)) = true →
  handle (remote w) (POST (get_repo_url p) (create_repo_data p)) = (s, Answered resp) →
  ¬ (400 ≤ status_code resp < 600) → body resp = Some j →
  main_apply handle p out w
  = (Exit (exit_json true None (Some j)),
     World s (calls w ++ [POST (get_repo_url p) (create_repo_data p)])).
Proof.
  intros Hs Hf Hd Hn Hc Hup Hpost Hok Hj.
  rewrite (main_apply_found handle p out d def cs w) by done. rewrite Hup.
  by apply (try_create_ok handle p w s resp j).
Qed.

End ProbeFailure.

Lemma probe_failure_escapes_witness :
  main scripted example_params (World [Answered (Response 502 None)] [])
  = (Exc (HTTPError (Response 502 None)), World [] [GET example_url]).
Proof.
  assert (Herr : 400 ≤ status_code (Response 502 None) < 600) by (simpl; lia).
  assert (H404 : status_code (Response 502 None) ≠ 404) by (simpl; lia).
  apply (proj2 (proj2 (probe_failure_escapes scripted example_params
                         (World [Answered (Response 502 None)] []) []
                         (Answered (Response 502 None))
                         (or_intror eq_refl) eq_refl))
           (Response 502 None) eq_refl Herr H404).
Defined.

Lemma update_reports_changed_witness :
  main_apply scripted uncompressed_params
    (CheckResult true false (Some {[ "s3snapshots" := compressed_def ]}))
    (World [Answered (Response 200 (Some ∅))] [GET example_url])
  = (Exit (exit_json true None (Some ∅)),
     World [] [GET example_url; POST example_url (create_repo_data uncompressed_params)]).
Proof.
  assert (Hok : ¬ (400 ≤ status_code (Response 200 (Some ∅)) < 600)) by (simpl; lia).
  pose proof (update_reports_changed scripted uncompressed_params
                (CheckResult true false (Some {[ "s3snapshots" := compressed_def ]}))
                {[ "s3snapshots" := compressed_def ]} compressed_def
                {[ "compress" := PStr "true" ]}
                (World [Answered (Response 200 (Some ∅))] [GET example_url])
                [] (Response 200 (Some ∅)) ∅
                eq_refl eq_refl eq_refl eq_refl eq_refl eq_refl eq_refl Hok eq_refl)
    as Hrun.
  exact Hrun.
Defined.
